(** * A bidirectional type checker (src/main.ts), embedded in Rocq

    The TypeScript program assigns types to the expressions of a small
    language.  Types are the strings "Number" and "Boolean" or an object
    with the two fields tArg and tRet; a context is a JavaScript [Map]
    from variable names to types; failures are thrown [Error] objects
    that carry a message.

    The embedding keeps the program's shape:
    - a [Map] is an object on a heap and a [Context] is a reference to it,
      so that "extend does not mutate its argument" is a statement about
      the heap and not a triviality;
    - [infer], [check], [lookup] and [extend] are computations in a state
      and exception monad over that heap;
    - a thrown [Error] is its message, built exactly as the template
      literals of the source build it. *)

From Stdlib Require Import SpecFloat Ascii.
From stdpp Require Import gmap strings list fin_maps.

(** ** Types *)

(** [type Type = "Number" | "Boolean" | { tArg: Type, tRet: Type }].
    ([Type] is reserved in Rocq, hence [Ty].) *)
Inductive Ty : Set :=
  | Number
  | Boolean
  | Function (tArg : Ty) (tRet : Ty).

#[global] Instance Ty_eq_dec : EqDecision Ty.
Proof. solve_decision. Defined.

(** [typeof t === "string"] *)
Definition typeof_string (t : Ty) : bool :=
  match t with
  | Number | Boolean => true
  | Function _ _ => false
  end.

(** [t1 === t2] when at least one side is a string: two strings are
    compared by their characters, a string never equals an object. *)
Definition strict_equal (t1 t2 : Ty) : bool :=
  match t1, t2 with
  | Number, Number => true
  | Boolean, Boolean => true
  | _, _ => false
  end.

(** [sameType], lines 63-70. *)
Fixpoint sameType (t1 t2 : Ty) {struct t1} : bool :=
  if typeof_string t1 || typeof_string t2 then strict_equal t1 t2
  else
    match t1, t2 with
    | Function a1 r1, Function a2 r2 => sameType a1 a2 && sameType r1 r2
    | _, _ => false
    end.

(** ** Error messages *)

(** The double-quote character that [JSON.stringify] writes. *)
Definition dq : string := String "034"%char EmptyString.

(** [JSON.stringify] on a [Type]: a string is quoted, an object lists its
    fields in creation order, which is tArg then tRet in every object the
    program builds. *)
Fixpoint JSON_stringify (t : Ty) : string :=
  match t with
  | Number => dq +:+ "Number" +:+ dq
  | Boolean => dq +:+ "Boolean" +:+ dq
  | Function a r =>
      "{" +:+ dq +:+ "tArg" +:+ dq +:+ ":" +:+ JSON_stringify a +:+
      "," +:+ dq +:+ "tRet" +:+ dq +:+ ":" +:+ JSON_stringify r +:+ "}"
  end.

(** The three template literals of the source (lines 13, 55 and 281). *)
Definition unbound_variable_message (x : string) : string :=
  "Unbound variable: " +:+ x.

Definition type_mismatch_message (expectedType inferredType : Ty) : string :=
  "Type mismatch: expected a " +:+ JSON_stringify expectedType +:+
  ", but got a " +:+ JSON_stringify inferredType.

Definition not_a_function_message (tFun : Ty) : string :=
  "Type mismatch: expected a function, but got a " +:+ JSON_stringify tFun.

(** ** The heap of Map objects *)

(** A [Context] is a reference to a [Map<string, Type>] object; the heap
    lists the entries of every Map allocated so far, in allocation order. *)
Definition Context : Set := nat.

Abbreviation entries := (gmap string Ty).
Abbreviation heap := (list (gmap string Ty)).

(** The entries of the Map a reference points to.  Every reference the
    program holds points to a live object; the properties below say so
    with [h !! ctx = Some m], and a reference to nothing reads as an
    empty Map. *)
Definition deref (h : heap) (ctx : Context) : entries :=
  default ∅ (h !! ctx).

(** ** Computations: state plus exceptions *)

Inductive completion (A : Type) : Type :=
  | Returns (a : A)
  | Throws (msg : string).
Arguments Returns {A} a.
Arguments Throws {A} msg.

Definition M (A : Type) : Type := heap → completion A * heap.

Definition throw {A} (msg : string) : M A := fun h => (Throws msg, h).

(** Sequencing: a throw skips the rest; the heap is threaded through. *)
#[global] Instance M_ret : MRet M := fun A a h => (Returns a, h).

#[global] Instance M_bind : MBind M := fun A B k m h =>
  match m h with
  | (Returns a, h') => k a h'
  | (Throws msg, h') => (Throws msg, h')
  end.

(** [new Map(ctx)]: a fresh object with a copy of the entries. *)
Definition Map_copy (ctx : Context) : M Context :=
  fun h => (Returns (List.length h), h ++ [deref h ctx]).

(** [m.set(x, t)]: in-place update of the object. *)
Definition Map_set (m : Context) (x : string) (t : Ty) : M unit :=
  fun h => (Returns tt, <[m := <[x := t]> (deref h m)]> h).

(** [m.get(x)]: [None] stands for [undefined]. *)
Definition Map_get (m : Context) (x : string) : M (option Ty) :=
  fun h => (Returns (deref h m !! x), h).

(** ** Contexts *)

(** [lookup], lines 10-16. *)
Definition lookup (ctx : Context) (x : string) : M Ty :=
  t ← Map_get ctx x;
  match t with
  | None => throw (unbound_variable_message x)
  | Some t => mret t
  end.

(** [extend], lines 22-28. *)
Definition extend (ctx : Context) (x : string) (t : Ty) : M Context :=
  extended ← Map_copy ctx;
  Map_set extended x t;;
  mret extended.

(** ** Expressions *)

(** A [number] is an IEEE 754 double; [lit n] is the literal of the
    positive integer [n].  No typing rule looks at the value. *)
Definition lit (n : positive) : spec_float := S754_finite false n 0.

(** The classes that implement [Expr]. *)
Inductive Expr : Set :=
  | Num (num : spec_float)
  | Bool (bool : bool)
  | Let (x : string) (e1 e2 : Expr)
  | Var (x : string)
  | Plus (left right : Expr)
  | Or (left right : Expr)
  | Eq (left right : Expr)
  | If (condition thenBranch elseBranch : Expr)
  | Fun (x : string) (tx : Ty) (body : Expr)
  | Call (func arg : Expr)
  | LetFun (f x : string) (tx tRet : Ty) (functionBody letBody : Expr).

(** ** infer and check *)

(** The body of [check] (lines 47-57), given the [infer] it calls. *)
Definition check_with (infer : Context → Expr → M Ty)
    (ctx : Context) (expr : Expr) (expectedType : Ty) : M unit :=
  inferredType ← infer ctx expr;
  if negb (sameType expectedType inferredType)
  then throw (type_mismatch_message expectedType inferredType)
  else mret tt.

(** [infer] (lines 40-42) dispatches to the [infer] method of the node's
    class; the branches are the method bodies. *)
Fixpoint infer (ctx : Context) (expr : Expr) {struct expr} : M Ty :=
  match expr with
  | Num _ => mret Number
  | Bool _ => mret Boolean
  | Let x e1 e2 =>
      t1 ← infer ctx e1;
      extended ← extend ctx x t1;
      t2 ← infer extended e2;
      mret t2
  | Var x => lookup ctx x
  | Plus l r =>
      check_with infer ctx l Number;;
      check_with infer ctx r Number;;
      mret Number
  | Or l r =>
      check_with infer ctx l Boolean;;
      check_with infer ctx r Boolean;;
      mret Boolean
  | Eq l r =>
      t ← infer ctx l;
      check_with infer ctx r t;;
      mret Boolean
  | If condition thenBranch elseBranch =>
      check_with infer ctx condition Boolean;;
      t ← infer ctx thenBranch;
      check_with infer ctx elseBranch t;;
      mret t
  | Fun x tx body =>
      extended ← extend ctx x tx;
      tBody ← infer extended body;
      mret (Function tx tBody)
  | Call func arg =>
      tFun ← infer ctx func;
      match tFun with
      | Function tArg tRet =>
          check_with infer ctx arg tArg;;
          mret tRet
      | Number | Boolean =>
          (* typeof tFun !== "object" *)
          throw (not_a_function_message tFun)
      end
  | LetFun f x tx tRet functionBody letBody =>
      let tf := Function tx tRet in
      c ← extend ctx f tf;
      functionBodyContext ← extend c x tx;
      check_with infer functionBodyContext functionBody tRet;;
      letBodyContext ← extend ctx f tf;
      tLetBody ← infer letBodyContext letBody;
      mret tLetBody
  end.

(** [check], lines 47-57. *)
Definition check (ctx : Context) (expr : Expr) (expectedType : Ty) : M unit :=
  check_with infer ctx expr expectedType.

(** The empty Map [{}] of the scenarios, alone on a heap. *)
Definition empty_heap : heap := [∅].
Definition empty : Context := 0.

(** Scenario 6: [letfun f(x : Number): Number ->
    if x == 10 then x else x + f(x + 1) in f(8)]. *)
Definition sumTo10 : Expr :=
  LetFun "f" "x" Number Number
    (If (Eq (Var "x") (Num (lit 10))) (Var "x")
        (Plus (Var "x") (Call (Var "f") (Plus (Var "x") (Num (lit 1))))))
    (Call (Var "f") (Num (lit 8))).

(** ** The typing rules as the specification words them

    Section 4.3 of the specification gives one rule per node, over
    immutable contexts, and section 7 names three kinds of error.  The
    definitions below follow those words; they are the reference against
    which the heap-manipulating [infer] of the source is compared. *)

Inductive TypeError : Set :=
  | UnboundVariable (name : string)
  | TypeMismatch (expected actual : Ty)
  | NotAFunction (actual : Ty).

(** The message that the source throws for each kind of error. *)
Definition message (err : TypeError) : string :=
  match err with
  | UnboundVariable name => unbound_variable_message name
  | TypeMismatch expected actual => type_mismatch_message expected actual
  | NotAFunction actual => not_a_function_message actual
  end.

Inductive outcome (A : Type) : Type :=
  | Ok (a : A)
  | Fail (err : TypeError).
Arguments Ok {A} a.
Arguments Fail {A} err.

#[global] Instance outcome_ret : MRet outcome := fun A a => Ok a.

#[global] Instance outcome_bind : MBind outcome := fun A B k o =>
  match o with
  | Ok a => k a
  | Fail err => Fail err
  end.

(** What a host observes of an outcome: the thrown message. *)
Definition thrown {A} (o : outcome A) : completion A :=
  match o with
  | Ok a => Returns a
  | Fail err => Throws (message err)
  end.

Definition rule_check_with (rule_infer : entries → Expr → outcome Ty)
    (m : entries) (e : Expr) (expected : Ty) : outcome unit :=
  actual ← rule_infer m e;
  if decide (actual = expected) then mret tt
  else Fail (TypeMismatch expected actual).

Fixpoint rule_infer (m : entries) (e : Expr) {struct e} : outcome Ty :=
  match e with
  | Num _ => mret Number
  | Bool _ => mret Boolean
  | Var x =>
      match m !! x with
      | Some t => mret t
      | None => Fail (UnboundVariable x)
      end
  | Let x e1 e2 =>
      t1 ← rule_infer m e1;
      rule_infer (<[x := t1]> m) e2
  | Plus l r =>
      rule_check_with rule_infer m l Number;;
      rule_check_with rule_infer m r Number;;
      mret Number
  | Or l r =>
      rule_check_with rule_infer m l Boolean;;
      rule_check_with rule_infer m r Boolean;;
      mret Boolean
  | Eq l r =>
      t ← rule_infer m l;
      rule_check_with rule_infer m r t;;
      mret Boolean
  | If c th el =>
      rule_check_with rule_infer m c Boolean;;
      t ← rule_infer m th;
      rule_check_with rule_infer m el t;;
      mret t
  | Fun x tx body =>
      tBody ← rule_infer (<[x := tx]> m) body;
      mret (Function tx tBody)
  | Call f arg =>
      tFun ← rule_infer m f;
      match tFun with
      | Function tArg tRet =>
          rule_check_with rule_infer m arg tArg;;
          mret tRet
      | actual => Fail (NotAFunction actual)
      end
  | LetFun f x tx tRet body rest =>
      let tf := Function tx tRet in
      rule_check_with rule_infer (<[x := tx]> (<[f := tf]> m)) body tRet;;
      rule_infer (<[f := tf]> m) rest
  end.

Definition rule_check (m : entries) (e : Expr) (expected : Ty) : outcome unit :=
  rule_check_with rule_infer m e expected.

(** ** Shapes and scenarios *)

(** The three shapes a type can have. *)
Inductive Shape : Set := NumberShape | BooleanShape | FunctionShape.

Definition shape (t : Ty) : Shape :=
  match t with
  | Number => NumberShape
  | Boolean => BooleanShape
  | Function _ _ => FunctionShape
  end.

(** [let x = 5 in let x = true in x] *)
Definition shadowing : Expr :=
  Let "x" (Num (lit 5)) (Let "x" (Bool true) (Var "x")).

(** [(let x = 1 in x) + x] *)
Definition sibling : Expr :=
  Plus (Let "x" (Num (lit 1)) (Var "x")) (Var "x").

(** [(fun (x : Number) -> x) == (fun (y : Number) -> y)] *)
Definition function_equality : Expr :=
  Eq (Fun "x" Number (Var "x")) (Fun "y" Number (Var "y")).

(** [true + x], both operands ill-typed in the empty context. *)
Definition both_operands_fail : Expr :=
  Plus (Bool true) (Var "x").

(** [letfun f(f : Number): Number -> f(1) in f]: the body tries to call
    the function through a name that its own parameter has taken. *)
Definition shadowed_self_call : Expr :=
  LetFun "f" "f" Number Number (Call (Var "f") (Num (lit 1))) (Var "f").

(** [letfun f(f : Number): Number -> f in f] *)
Definition shadowed_parameter : Expr :=
  LetFun "f" "f" Number Number (Var "f") (Var "f").

(** ** Scopes and allocations, read off the calls to [extend] *)

(** The variables an expression reads from the context it is given:
    [Let] enters [x] for [e2] only, [Fun] enters [x] for its body,
    [LetFun] enters [f] for both bodies and [x] for the function body. *)
Fixpoint free_vars (e : Expr) : gset string :=
  match e with
  | Num _ | Bool _ => ∅
  | Var x => {[x]}
  | Let x e1 e2 => free_vars e1 ∪ (free_vars e2 ∖ {[x]})
  | Plus l r | Or l r | Eq l r => free_vars l ∪ free_vars r
  | If c th el => free_vars c ∪ free_vars th ∪ free_vars el
  | Fun x _ body => free_vars body ∖ {[x]}
  | Call func arg => free_vars func ∪ free_vars arg
  | LetFun f x _ _ body rest =>
      (free_vars body ∖ {[f; x]}) ∪ (free_vars rest ∖ {[f]})
  end.

(** The calls to [extend] that a run of [infer] makes when no premise
    throws: one for [Let], one for [Fun], three for [LetFun]. *)
Fixpoint extend_calls (e : Expr) : nat :=
  match e with
  | Num _ | Bool _ | Var _ => 0
  | Let _ e1 e2 => extend_calls e1 + 1 + extend_calls e2
  | Plus l r | Or l r | Eq l r => extend_calls l + extend_calls r
  | If c th el => extend_calls c + extend_calls th + extend_calls el
  | Fun _ _ body => 1 + extend_calls body
  | Call func arg => extend_calls func + extend_calls arg
  | LetFun _ _ _ _ body rest => 2 + extend_calls body + 1 + extend_calls rest
  end.

(** A computation allocates at most [n] objects, and exactly [n] when it
    returns. *)
Definition allocates {A} (c : M A) (n : nat) : Prop :=
  ∀ h : heap,
    List.length h ≤ List.length (c h).2 ≤ List.length h + n ∧
    (∀ a, (c h).1 = Returns a → List.length (c h).2 = List.length h + n).

(** * Properties *)

(** ** Structural equality of types *)

Lemma sameType_eq (t1 t2 : Ty) : sameType t1 t2 = true ↔ t1 = t2.
Proof.
  revert t2. induction t1 as [ | | a1 IHa r1 IHr]; intros [ | | a2 r2];
    simpl; try (split; [discriminate | congruence]); try done.
  rewrite andb_true_iff, IHa, IHr. split; [intros [-> ->] | intros [= -> ->]]; done.
Qed.

Lemma sameType_refl (t : Ty) : sameType t t = true.
Proof. by apply sameType_eq. Qed.

Lemma sameType_neq (t1 t2 : Ty) : sameType t1 t2 = false ↔ t1 ≠ t2.
Proof.
  rewrite <- sameType_eq. destruct (sameType t1 t2); split; congruence.
Qed.

(** ** Messages *)

(** [String.append] does not unfold under [simpl]; its two equations. *)
Lemma append_cons (ch : ascii) (a b : string) :
  String ch a +:+ b = String ch (a +:+ b).
Proof. reflexivity. Qed.

Lemma append_empty (b : string) : "" +:+ b = b.
Proof. reflexivity. Qed.

Lemma append_assoc (a b c : string) : (a +:+ b) +:+ c = a +:+ (b +:+ c).
Proof.
  induction a as [ | ch a IH]; [done | ].
  by rewrite !append_cons, IH.
Qed.

Ltac norm_append :=
  unfold dq; rewrite ?append_assoc; rewrite ?append_cons, ?append_empty.

(** [JSON.stringify] is a prefix code: what follows a serialised type
    never changes how the type reads. *)
Lemma JSON_stringify_prefix_free (t1 t2 : Ty) (s1 s2 : string) :
  JSON_stringify t1 +:+ s1 = JSON_stringify t2 +:+ s2 → t1 = t2 ∧ s1 = s2.
Proof.
  revert t2 s1 s2.
  induction t1 as [ | | a1 IHa r1 IHr]; intros [ | | a2 r2] s1 s2;
    cbn [JSON_stringify]; norm_append;
    try discriminate; try (intros [= ->]; done).
  intros [= H].
  apply IHa in H as [-> H]. injection H as H.
  apply IHr in H as [-> H]. by injection H as ->.
Qed.

Lemma JSON_stringify_inj (t1 t2 : Ty) :
  JSON_stringify t1 = JSON_stringify t2 → t1 = t2.
Proof.
  intros H. apply (JSON_stringify_prefix_free t1 t2 "" "").
  by rewrite H.
Qed.

(** A serialised type opens with a quote or a brace. *)
Lemma JSON_stringify_head (t : Ty) :
  ∃ s, JSON_stringify t = String "034" s ∨ JSON_stringify t = String "{" s.
Proof. destruct t; cbn [JSON_stringify]; norm_append; eauto. Qed.

Lemma not_a_function_message_inj (t1 t2 : Ty) :
  not_a_function_message t1 = not_a_function_message t2 → t1 = t2.
Proof.
  unfold not_a_function_message. intros H%String.app_inj.
  by apply JSON_stringify_inj.
Qed.

Lemma not_a_function_not_mismatch (tFun expectedType inferredType : Ty) :
  not_a_function_message tFun ≠ type_mismatch_message expectedType inferredType.
Proof.
  unfold not_a_function_message, type_mismatch_message.
  destruct (JSON_stringify_head expectedType) as [s [-> | ->]];
    norm_append; discriminate.
Qed.

Lemma not_a_function_not_unbound (tFun : Ty) (x : string) :
  not_a_function_message tFun ≠ unbound_variable_message x.
Proof.
  unfold not_a_function_message, unbound_variable_message.
  norm_append; discriminate.
Qed.

Lemma type_mismatch_message_inj (e1 a1 e2 a2 : Ty) :
  type_mismatch_message e1 a1 = type_mismatch_message e2 a2 → e1 = e2 ∧ a1 = a2.
Proof.
  unfold type_mismatch_message. intros H%String.app_inj.
  apply JSON_stringify_prefix_free in H as [-> H%String.app_inj].
  by apply JSON_stringify_inj in H as ->.
Qed.

(** ** Running computations *)

Lemma bind_run {A B} (m : M A) (k : A → M B) (h : heap) :
  (m ≫= k) h =
  match m h with
  | (Returns a, h') => k a h'
  | (Throws msg, h') => (Throws msg, h')
  end.
Proof. reflexivity. Qed.

Lemma ret_run {A} (a : A) (h : heap) : mret (M := M) a h = (Returns a, h).
Proof. reflexivity. Qed.

Lemma deref_Some (h : heap) (ctx : Context) (m : entries) :
  h !! ctx = Some m → deref h ctx = m.
Proof. unfold deref. by intros ->. Qed.

Lemma lookup_run (ctx : Context) (x : string) (h : heap) :
  lookup ctx x h =
  (match deref h ctx !! x with
   | Some t => Returns t
   | None => Throws (unbound_variable_message x)
   end, h).
Proof.
  unfold lookup, Map_get. rewrite bind_run.
  by destruct (deref h ctx !! x).
Qed.

(** [extend] allocates one object and touches nothing else. *)
Lemma extend_run (ctx : Context) (x : string) (t : Ty) (h : heap) :
  extend ctx x t h = (Returns (List.length h), h ++ [<[x := t]> (deref h ctx)]).
Proof.
  unfold extend, Map_copy, Map_set. rewrite !bind_run. cbn beta iota.
  rewrite ret_run. f_equal.
  replace (List.length h) with (List.length h + 0) at 1 by lia.
  rewrite insert_app_r. cbn. f_equal. f_equal. f_equal.
  unfold deref. by rewrite lookup_app_r, Nat.sub_diag by lia.
Qed.

Lemma lookup_fresh (h : heap) (m : entries) :
  (h ++ [m]) !! List.length h = Some m.
Proof. by rewrite lookup_app_r, Nat.sub_diag by lia. Qed.

(** ** The source refines the rules *)

Lemma outcome_bind_run {A B} (o : outcome A) (k : A → outcome B) :
  o ≫= k = match o with Ok a => k a | Fail err => Fail err end.
Proof. reflexivity. Qed.

Lemma refines_check (ctx : Context) (m : entries) (e : Expr) (expected : Ty)
    (h : heap) :
  (∀ h, h !! ctx = Some m → ∃ k, infer ctx e h = (thrown (rule_infer m e), h ++ k)) →
  h !! ctx = Some m →
  ∃ k, check_with infer ctx e expected h =
       (thrown (rule_check_with rule_infer m e expected), h ++ k).
Proof.
  intros IH Hctx. destruct (IH h Hctx) as [k Hk]. exists k.
  unfold check_with, rule_check_with. rewrite bind_run, Hk, outcome_bind_run.
  destruct (rule_infer m e) as [actual | err]; [ | done]. simpl.
  destruct (decide (actual = expected)) as [-> | Hne].
  - by rewrite sameType_refl.
  - assert (sameType expected actual = false) as ->; [ | done].
    apply sameType_neq. congruence.
Qed.

(** Objects already on the heap stay where they are when it grows. *)
Lemma live_app (h k : heap) (ctx : Context) (m : entries) :
  h !! ctx = Some m → (h ++ k) !! ctx = Some m.
Proof. apply lookup_app_l_Some. Qed.

Ltac close_run := eexists; rewrite <- ?app_assoc; reflexivity.

Ltac run_infer IH Hctx k t :=
  let Hk := fresh "Hk" in
  destruct (IH _ _ _ Hctx) as [k Hk];
  rewrite bind_run, Hk, outcome_bind_run; clear Hk;
  match goal with
  | |- context [thrown ?o] =>
      destruct o as [t | ?]; cbn [thrown]; [ | close_run]
  end.

Ltac run_check IH Hctx T k :=
  let Hk := fresh "Hk" in
  destruct (refines_check _ _ _ T _ (IH _ _) Hctx) as [k Hk];
  rewrite bind_run, Hk, outcome_bind_run; clear Hk;
  match goal with
  | |- context [thrown ?o] =>
      destruct o as [[] | ?]; cbn [thrown]; [ | close_run]
  end.

Ltac run_extend Hctx :=
  rewrite bind_run, extend_run, (deref_Some _ _ _ Hctx).

(** The heap only grows, and the completion is the one the rules give
    for the entries of [ctx]. *)
Lemma infer_refines (e : Expr) :
  ∀ (ctx : Context) (m : entries) (h : heap),
    h !! ctx = Some m →
    ∃ k, infer ctx e h = (thrown (rule_infer m e), h ++ k).
Proof.
  induction e as [n | b | x e1 IH1 e2 IH2 | x | l IHl r IHr | l IHl r IHr
                 | l IHl r IHr | c IHc th IHth el IHel | x tx body IHb
                 | f IHf arg IHa | f x tx tRet body IHb rest IHr];
    intros ctx m h Hctx; cbn [infer rule_infer].
  - exists []. by rewrite app_nil_r.
  - exists []. by rewrite app_nil_r.
  - run_infer IH1 Hctx k1 t1.
    run_extend (live_app _ k1 _ _ Hctx).
    destruct (IH2 _ _ _ (lookup_fresh (h ++ k1) (<[x := t1]> m))) as [k2 Hk2].
    rewrite bind_run, Hk2.
    destruct (rule_infer (<[x := t1]> m) e2); cbn [thrown]; close_run.
  - exists []. rewrite lookup_run, (deref_Some _ _ _ Hctx), app_nil_r.
    by destruct (m !! x).
  - run_check IHl Hctx Number k1.
    run_check IHr (live_app _ k1 _ _ Hctx) Number k2.
    close_run.
  - run_check IHl Hctx Boolean k1.
    run_check IHr (live_app _ k1 _ _ Hctx) Boolean k2.
    close_run.
  - run_infer IHl Hctx k1 t.
    run_check IHr (live_app _ k1 _ _ Hctx) t k2.
    close_run.
  - run_check IHc Hctx Boolean k1.
    run_infer IHth (live_app _ k1 _ _ Hctx) k2 t.
    run_check IHel (live_app _ k2 _ _ (live_app _ k1 _ _ Hctx)) t k3.
    close_run.
  - run_extend Hctx.
    destruct (IHb _ _ _ (lookup_fresh h (<[x := tx]> m))) as [k Hk].
    rewrite bind_run, Hk, outcome_bind_run.
    destruct (rule_infer (<[x := tx]> m) body); cbn [thrown]; close_run.
  - run_infer IHf Hctx k1 tFun.
    destruct tFun as [ | | tArg tRet]; cbn [thrown message]; try close_run.
    run_check IHa (live_app _ k1 _ _ Hctx) tArg k2.
    close_run.
  - cbv zeta. run_extend Hctx.
    set (mf := <[f := Function tx tRet]> m).
    run_extend (lookup_fresh h mf).
    set (mx := <[x := tx]> mf).
    run_check IHb (lookup_fresh (h ++ [mf]) mx) tRet k1.
    assert ((((h ++ [mf]) ++ [mx]) ++ k1) !! ctx = Some m) as Hlive
      by (do 3 apply live_app; exact Hctx).
    run_extend Hlive. fold mf.
    destruct (IHr _ _ _ (lookup_fresh (((h ++ [mf]) ++ [mx]) ++ k1) mf))
      as [k2 Hk2].
    rewrite bind_run, Hk2.
    destruct (rule_infer mf rest); cbn [thrown]; close_run.
Qed.

(** ** Corollaries of the refinement *)

Lemma infer_result (e : Expr) (ctx : Context) (m : entries) (h : heap) :
  h !! ctx = Some m → (infer ctx e h).1 = thrown (rule_infer m e).
Proof. intros Hctx. destruct (infer_refines e ctx m h Hctx) as [k ->]. done. Qed.

Lemma infer_heap (e : Expr) (ctx : Context) (m : entries) (h : heap) :
  h !! ctx = Some m → ∃ k, (infer ctx e h).2 = h ++ k.
Proof. intros Hctx. destruct (infer_refines e ctx m h Hctx) as [k ->]. eauto. Qed.

Lemma check_run (ctx : Context) (e : Expr) (expected : Ty) (h : heap) :
  check ctx e expected h =
  match infer ctx e h with
  | (Returns actual, h1) =>
      if sameType expected actual then (Returns tt, h1)
      else (Throws (type_mismatch_message expected actual), h1)
  | (Throws msg, h1) => (Throws msg, h1)
  end.
Proof.
  unfold check, check_with. rewrite bind_run.
  destruct (infer ctx e h) as [[actual | msg] h1]; [ | done].
  by destruct (sameType expected actual).
Qed.

Lemma message_inj (err1 err2 : TypeError) :
  message err1 = message err2 → err1 = err2.
Proof.
  destruct err1 as [x1 | e1 a1 | a1], err2 as [x2 | e2 a2 | a2]; cbn [message];
    intros H.
  - unfold unbound_variable_message in H. by apply String.app_inj in H as ->.
  - unfold unbound_variable_message, type_mismatch_message in H.
    revert H. norm_append. discriminate.
  - unfold unbound_variable_message, not_a_function_message in H.
    revert H. norm_append. discriminate.
  - unfold unbound_variable_message, type_mismatch_message in H.
    revert H. norm_append. discriminate.
  - by apply type_mismatch_message_inj in H as [-> ->].
  - symmetry in H. by apply not_a_function_not_mismatch in H.
  - by apply not_a_function_not_unbound in H.
  - by apply not_a_function_not_mismatch in H.
  - by apply not_a_function_message_inj in H as ->.
Qed.

(** * The claims *)

(** C4. [sameType] answers true exactly when the two types have the same
    shape and, for two function types, recursively equal argument and
    result types; that is, exactly when they are the same type.  Hence
    two function types built apart from equal components are equal, and
    two function types whose result types differ are unequal. *)
Theorem sameType_structural (t1 t2 : Ty) :
  (sameType t1 t2 = true ↔
     shape t1 = shape t2 ∧
     ∀ a1 r1 a2 r2, t1 = Function a1 r1 → t2 = Function a2 r2 →
       sameType a1 a2 = true ∧ sameType r1 r2 = true) ∧
  (sameType t1 t2 = true ↔ t1 = t2) ∧
  (∀ a1 r1 a2 r2, a1 = a2 → r1 = r2 →
     sameType (Function a1 r1) (Function a2 r2) = true) ∧
  (∀ a1 r1 a2 r2, r1 ≠ r2 →
     sameType (Function a1 r1) (Function a2 r2) = false).
Proof.
  split; [ | split; [apply sameType_eq | split]].
  - rewrite sameType_eq. split.
    + intros ->. split; [done | ].
      intros a1 r1 a2 r2 -> [= <- <-]. by rewrite !sameType_refl.
    + destruct t1 as [ | | a1 r1], t2 as [ | | a2 r2]; intros [Hs H];
        try discriminate Hs; try done.
      by destruct (H a1 r1 a2 r2 eq_refl eq_refl)
        as [->%sameType_eq ->%sameType_eq].
  - intros a1 r1 a2 r2 -> ->. apply sameType_refl.
  - intros a1 r1 a2 r2 Hne. apply sameType_neq. congruence.
Qed.

(** C5. [extend(ctx, x, t)] never fails and returns a new context whose
    entries are those of [ctx] with [x] bound to [t].  The Map behind
    [ctx], like every other Map already on the heap, is left as it was:
    a variable unbound in [ctx] before the call is still unbound in it
    afterwards, and a variable bound in [ctx] keeps its type. *)
Theorem extend_non_mutating (h : heap) (ctx : Context) (m : entries)
    (x : string) (t : Ty) :
  h !! ctx = Some m →
  ∃ (extended : Context) (h' : heap),
    extend ctx x t h = (Returns extended, h') ∧
    h' !! extended = Some (<[x := t]> m) ∧
    h !! extended = None ∧
    h' !! ctx = Some m ∧
    (∀ c mc, h !! c = Some mc → h' !! c = Some mc) ∧
    (∀ y, (lookup ctx y h).1 = Throws (unbound_variable_message y) →
          (lookup ctx y h').1 = Throws (unbound_variable_message y)) ∧
    (∀ y ty, (lookup ctx y h).1 = Returns ty →
             (lookup ctx y h').1 = Returns ty).
Proof.
  intros Hctx. exists (List.length h), (h ++ [<[x := t]> m]).
  rewrite extend_run, (deref_Some _ _ _ Hctx).
  assert ((h ++ [<[x := t]> m]) !! ctx = Some m) as Hctx'
    by by apply live_app.
  split_and!.
  - done.
  - apply lookup_fresh.
  - by apply lookup_ge_None.
  - done.
  - intros c mc Hc. by apply live_app.
  - intros y. by rewrite !lookup_run, (deref_Some _ _ _ Hctx), (deref_Some _ _ _ Hctx').
  - intros y ty. by rewrite !lookup_run, (deref_Some _ _ _ Hctx), (deref_Some _ _ _ Hctx').
Qed.

Lemma extend_non_mutating_witness :
  empty_heap !! empty = Some (∅ : entries) ∧
  ∃ (extended : Context) (h' : heap),
    extend empty "x" Number empty_heap = (Returns extended, h') ∧
    h' !! extended = Some (<["x" := Number]> (∅ : entries)) ∧
    empty_heap !! extended = None ∧
    h' !! empty = Some (∅ : entries) ∧
    (∀ c mc, empty_heap !! c = Some mc → h' !! c = Some mc) ∧
    (∀ y, (lookup empty y empty_heap).1 = Throws (unbound_variable_message y) →
          (lookup empty y h').1 = Throws (unbound_variable_message y)) ∧
    (∀ y ty, (lookup empty y empty_heap).1 = Returns ty →
             (lookup empty y h').1 = Returns ty).
Proof.
  split; [reflexivity | ].
  apply (extend_non_mutating empty_heap empty ∅ "x" Number). reflexivity.
Defined.

(** C3. [check(ctx, e, expected)] infers the type of [e] under [ctx].
    When that type is structurally equal to [expected] it returns unit,
    in the very state [infer] left; it throws exactly when the two
    differ.  What it throws is the text "Type mismatch: expected a ...,
    but got a ..." filled with the serialised [expected] and inferred
    types: a message that no other kind of error has and from which both
    types can be read back, so that the error is [TypeMismatch] of
    [expected] and the inferred type and of nothing else. *)
Theorem check_infers_then_compares (ctx : Context) (e : Expr) (expected : Ty)
    (h : heap) (actual : Ty) (h1 : heap) :
  infer ctx e h = (Returns actual, h1) →
  (check ctx e expected h = (Throws (message (TypeMismatch expected actual)), h1)
     ↔ actual ≠ expected) ∧
  (check ctx e expected h = (Returns tt, h1) ↔ actual = expected) ∧
  (∀ msg h2, check ctx e expected h = (Throws msg, h2) →
     msg = type_mismatch_message expected actual ∧ h2 = h1) ∧
  (∀ m, h !! ctx = Some m → ∃ k, h1 = h ++ k) ∧
  (∀ msg h2, check ctx e expected h = (Throws msg, h2) →
     msg = "Type mismatch: expected a " +:+ JSON_stringify expected +:+
           ", but got a " +:+ JSON_stringify actual ∧
     (∀ err, message err = msg → err = TypeMismatch expected actual) ∧
     (∀ expected' actual',
        msg = type_mismatch_message expected' actual' →
        expected' = expected ∧ actual' = actual) ∧
     (∀ x, msg ≠ unbound_variable_message x) ∧
     (∀ tFun, msg ≠ not_a_function_message tFun)).
Proof.
  intros Hinfer. rewrite check_run, Hinfer. cbn [message].
  assert (∀ m, h !! ctx = Some m → ∃ k, h1 = h ++ k) as Hframe.
  { intros m Hctx. destruct (infer_heap e ctx m h Hctx) as [k Hk].
    exists k. by rewrite Hinfer in Hk. }
  assert (∀ msg, msg = type_mismatch_message expected actual →
            msg = "Type mismatch: expected a " +:+ JSON_stringify expected +:+
                  ", but got a " +:+ JSON_stringify actual ∧
            (∀ err, message err = msg → err = TypeMismatch expected actual) ∧
            (∀ expected' actual',
               msg = type_mismatch_message expected' actual' →
               expected' = expected ∧ actual' = actual) ∧
            (∀ x, msg ≠ unbound_variable_message x) ∧
            (∀ tFun, msg ≠ not_a_function_message tFun)) as Hkind.
  { intros msg ->. split_and!.
    - reflexivity.
    - intros err Herr. by apply (message_inj err (TypeMismatch expected actual)).
    - intros expected' actual' Heq. symmetry in Heq.
      by apply type_mismatch_message_inj in Heq as [-> ->].
    - intros x Heq.
      by pose proof (message_inj (TypeMismatch expected actual)
                       (UnboundVariable x) Heq).
    - intros tFun Heq.
      by pose proof (message_inj (TypeMismatch expected actual)
                       (NotAFunction tFun) Heq). }
  destruct (sameType expected actual) eqn:Hsame.
  - apply sameType_eq in Hsame as ->.
    split_and!; [split; [discriminate | done] | done | discriminate | done
                | discriminate].
  - apply sameType_neq in Hsame.
    split_and!.
    + split; [congruence | done].
    + split; [discriminate | congruence].
    + by intros msg h2 [= <- <-].
    + done.
    + intros msg h2 [= <- <-]. by apply Hkind.
Qed.

Lemma check_infers_then_compares_witness :
  infer empty (Num (lit 1)) empty_heap = (Returns Number, empty_heap) ∧
  check empty (Num (lit 1)) Boolean empty_heap =
    (Throws (message (TypeMismatch Boolean Number)), empty_heap) ∧
  (∀ err,
     message err = "Type mismatch: expected a " +:+ JSON_stringify Boolean +:+
                   ", but got a " +:+ JSON_stringify Number →
     err = TypeMismatch Boolean Number).
Proof.
  pose proof (check_infers_then_compares empty (Num (lit 1)) Boolean empty_heap
                Number empty_heap eq_refl) as (Hthrows & _ & _ & _ & Hkind).
  assert (check empty (Num (lit 1)) Boolean empty_heap =
            (Throws (message (TypeMismatch Boolean Number)), empty_heap))
    as Hcheck by (apply Hthrows; discriminate).
  split; [reflexivity | split; [exact Hcheck | ]].
  destruct (Hkind _ _ Hcheck) as (_ & Hinj & _).
  exact Hinj.
Defined.

(** C1. When the callee of a [Call] infers to a type that is not a
    function, [infer] throws, at once, the error of the call site: the
    message of [NotAFunction] for that type.  The text of that message
    opens with the words "Type mismatch", yet no other kind of error has
    this message, a [TypeMismatch] of two types in particular.  When the
    callee infers to a function type, the argument is checked against
    its argument type and the result is its result type. *)
Theorem Call_callee_shape (ctx : Context) (func arg : Expr) (h : heap)
    (tFun : Ty) (h1 : heap) :
  infer ctx func h = (Returns tFun, h1) →
  (shape tFun ≠ FunctionShape →
     infer ctx (Call func arg) h = (Throws (message (NotAFunction tFun)), h1) ∧
     (∀ err, message err = message (NotAFunction tFun) → err = NotAFunction tFun) ∧
     (∀ expected actual,
        message (NotAFunction tFun) ≠ type_mismatch_message expected actual)) ∧
  (∀ tArg tRet, tFun = Function tArg tRet →
     infer ctx (Call func arg) h =
       match check ctx arg tArg h1 with
       | (Returns _, h2) => (Returns tRet, h2)
       | (Throws msg, h2) => (Throws msg, h2)
       end).
Proof.
  intros Hfunc. cbn [infer]. rewrite bind_run, Hfunc. split.
  - intros Hshape. split_and!.
    + by destruct tFun.
    + intros err. apply message_inj.
    + intros expected actual. apply not_a_function_not_mismatch.
  - intros tArg tRet ->. unfold check. rewrite bind_run.
    by destruct (check_with infer ctx arg tArg h1) as [[[] | msg] h2].
Qed.

Lemma Call_callee_shape_witness :
  (infer empty (Num (lit 1)) empty_heap = (Returns Number, empty_heap) ∧
   shape Number ≠ FunctionShape ∧
   infer empty (Call (Num (lit 1)) (Num (lit 1))) empty_heap =
     (Throws (message (NotAFunction Number)), empty_heap)) ∧
  (infer empty (Fun "x" Number (Var "x")) empty_heap =
     (Returns (Function Number Number), [∅; <["x" := Number]> ∅]) ∧
   infer empty (Call (Fun "x" Number (Var "x")) (Num (lit 1))) empty_heap =
     (Returns Number, [∅; <["x" := Number]> ∅])).
Proof.
  split.
  - refine (conj eq_refl (conj _ _)); [discriminate | ].
    exact (proj1 (proj1 (Call_callee_shape empty (Num (lit 1)) (Num (lit 1)) empty_heap
                           Number empty_heap eq_refl) ltac:(discriminate))).
  - split; [reflexivity | ].
    exact (proj2 (Call_callee_shape empty (Fun "x" Number (Var "x")) (Num (lit 1))
                    empty_heap (Function Number Number)
                    [∅; <["x" := Number]> ∅] eq_refl)
             Number Number eq_refl).
Defined.

(** C7. [Eq(l, r)] infers the type [t] of [l], checks [r] against [t]
    and returns Boolean, whatever the shape of [t]: two operands of one
    function type compare as well as two numbers. *)
Theorem Eq_any_shape (ctx : Context) (l r : Expr) (h : heap) (t : Ty)
    (h1 : heap) :
  infer ctx l h = (Returns t, h1) →
  infer ctx (Eq l r) h =
    match check ctx r t h1 with
    | (Returns _, h2) => (Returns Boolean, h2)
    | (Throws msg, h2) => (Throws msg, h2)
    end ∧
  (∀ h2, infer ctx r h1 = (Returns t, h2) →
     infer ctx (Eq l r) h = (Returns Boolean, h2)) ∧
  (∀ m, h !! ctx = Some m →
     (infer ctx function_equality h).1 = Returns Boolean).
Proof.
  intros Hl. cbn [infer]. rewrite bind_run, Hl. split_and!.
  - unfold check. rewrite bind_run.
    by destruct (check_with infer ctx r t h1) as [[[] | msg] h2].
  - intros h2 Hr. rewrite bind_run.
    fold (check ctx r t). by rewrite check_run, Hr, sameType_refl.
  - intros m Hctx. rewrite (infer_result _ _ _ _ Hctx).
    unfold function_equality. cbn [rule_infer].
    rewrite !outcome_bind_run, !lookup_insert_eq. cbn.
    unfold rule_check_with. cbn [rule_infer].
    rewrite !outcome_bind_run, !lookup_insert_eq. cbn.
    by rewrite decide_True.
Qed.

Lemma Eq_any_shape_witness :
  infer empty (Fun "x" Number (Var "x")) empty_heap =
    (Returns (Function Number Number), [∅; <["x" := Number]> ∅]) ∧
  infer empty (Eq (Fun "x" Number (Var "x")) (Num (lit 1))) empty_heap =
    match check empty (Num (lit 1)) (Function Number Number)
            [∅; <["x" := Number]> ∅] with
    | (Returns _, h2) => (Returns Boolean, h2)
    | (Throws msg, h2) => (Throws msg, h2)
    end ∧
  (∀ h2, infer empty (Num (lit 1)) [∅; <["x" := Number]> ∅] =
           (Returns (Function Number Number), h2) →
     infer empty (Eq (Fun "x" Number (Var "x")) (Num (lit 1))) empty_heap =
       (Returns Boolean, h2)) ∧
  (∀ m, empty_heap !! empty = Some m →
     (infer empty function_equality empty_heap).1 = Returns Boolean).
Proof.
  split; [reflexivity | ].
  apply (Eq_any_shape empty (Fun "x" Number (Var "x")) (Num (lit 1)) empty_heap
           (Function Number Number) [∅; <["x" := Number]> ∅]).
  reflexivity.
Defined.

(** A throw skips whatever was to follow. *)
Lemma bind_throws {A B} (c : M A) (k : A → M B) (h h' : heap) (msg : string) :
  c h = (Throws msg, h') → (c ≫= k) h = (Throws msg, h').
Proof. intros H. by rewrite bind_run, H. Qed.

Ltac run_premises :=
  intros; cbn [infer]; unfold check in *; cbv zeta;
  repeat (rewrite bind_run;
          match goal with
          | H : ?c = _ |- context [?c] => rewrite H
          end);
  try reflexivity.

(** C8. The premises of a node run from left to right and the first one
    that throws ends the node with that very error, in the state where it
    was thrown: nothing that comes later is run.  One clause per premise
    of every node that has premises; in particular a [Plus] whose left
    operand fails its check fails with that error whatever the right
    operand is, even one that would fail with another kind of error. *)
Theorem first_error_aborts (ctx : Context) (h : heap) (msg : string)
    (h' : heap) :
  (∀ e expected,
     infer ctx e h = (Throws msg, h') →
     check ctx e expected h = (Throws msg, h')) ∧
  (∀ x e1 e2,
     infer ctx e1 h = (Throws msg, h') →
     infer ctx (Let x e1 e2) h = (Throws msg, h')) ∧
  (∀ x e1 e2 t1 h1 extended h2,
     infer ctx e1 h = (Returns t1, h1) →
     extend ctx x t1 h1 = (Returns extended, h2) →
     infer extended e2 h2 = (Throws msg, h') →
     infer ctx (Let x e1 e2) h = (Throws msg, h')) ∧
  (∀ l r,
     check ctx l Number h = (Throws msg, h') →
     infer ctx (Plus l r) h = (Throws msg, h')) ∧
  (∀ l r h1,
     check ctx l Number h = (Returns tt, h1) →
     check ctx r Number h1 = (Throws msg, h') →
     infer ctx (Plus l r) h = (Throws msg, h')) ∧
  (∀ l r,
     check ctx l Boolean h = (Throws msg, h') →
     infer ctx (Or l r) h = (Throws msg, h')) ∧
  (∀ l r h1,
     check ctx l Boolean h = (Returns tt, h1) →
     check ctx r Boolean h1 = (Throws msg, h') →
     infer ctx (Or l r) h = (Throws msg, h')) ∧
  (∀ l r,
     infer ctx l h = (Throws msg, h') →
     infer ctx (Eq l r) h = (Throws msg, h')) ∧
  (∀ l r t h1,
     infer ctx l h = (Returns t, h1) →
     check ctx r t h1 = (Throws msg, h') →
     infer ctx (Eq l r) h = (Throws msg, h')) ∧
  (∀ c th el,
     check ctx c Boolean h = (Throws msg, h') →
     infer ctx (If c th el) h = (Throws msg, h')) ∧
  (∀ c th el h1,
     check ctx c Boolean h = (Returns tt, h1) →
     infer ctx th h1 = (Throws msg, h') →
     infer ctx (If c th el) h = (Throws msg, h')) ∧
  (∀ c th el h1 t h2,
     check ctx c Boolean h = (Returns tt, h1) →
     infer ctx th h1 = (Returns t, h2) →
     check ctx el t h2 = (Throws msg, h') →
     infer ctx (If c th el) h = (Throws msg, h')) ∧
  (∀ x tx body extended h1,
     extend ctx x tx h = (Returns extended, h1) →
     infer extended body h1 = (Throws msg, h') →
     infer ctx (Fun x tx body) h = (Throws msg, h')) ∧
  (∀ func arg,
     infer ctx func h = (Throws msg, h') →
     infer ctx (Call func arg) h = (Throws msg, h')) ∧
  (∀ func arg tArg tRet h1,
     infer ctx func h = (Returns (Function tArg tRet), h1) →
     check ctx arg tArg h1 = (Throws msg, h') →
     infer ctx (Call func arg) h = (Throws msg, h')) ∧
  (∀ f x tx tRet body rest c h1 functionBodyContext h2,
     extend ctx f (Function tx tRet) h = (Returns c, h1) →
     extend c x tx h1 = (Returns functionBodyContext, h2) →
     check functionBodyContext body tRet h2 = (Throws msg, h') →
     infer ctx (LetFun f x tx tRet body rest) h = (Throws msg, h')) ∧
  (∀ f x tx tRet body rest c h1 functionBodyContext h2 h3 letBodyContext h4,
     extend ctx f (Function tx tRet) h = (Returns c, h1) →
     extend c x tx h1 = (Returns functionBodyContext, h2) →
     check functionBodyContext body tRet h2 = (Returns tt, h3) →
     extend ctx f (Function tx tRet) h3 = (Returns letBodyContext, h4) →
     infer letBodyContext rest h4 = (Throws msg, h') →
     infer ctx (LetFun f x tx tRet body rest) h = (Throws msg, h')) ∧
  (h !! ctx = Some ∅ →
     (infer ctx (Var "x") h).1 = Throws (unbound_variable_message "x") ∧
     (infer ctx both_operands_fail h).1 =
       Throws (type_mismatch_message Number Boolean)).
Proof.
  split_and!; try by run_premises.
  - intros e expected Hinfer. by rewrite check_run, Hinfer.
  - intros Hctx. by rewrite !(infer_result _ _ _ _ Hctx).
Qed.

Lemma first_error_aborts_witness :
  check empty (Bool true) Number empty_heap =
    (Throws (type_mismatch_message Number Boolean), empty_heap) ∧
  (infer empty (Var "x") empty_heap).1 = Throws (unbound_variable_message "x") ∧
  infer empty both_operands_fail empty_heap =
    (Throws (type_mismatch_message Number Boolean), empty_heap).
Proof.
  split; [reflexivity | split; [reflexivity | ]].
  destruct (first_error_aborts empty empty_heap
              (type_mismatch_message Number Boolean) empty_heap)
    as (_ & _ & _ & Hplus & _).
  apply Hplus. reflexivity.
Defined.

(** C9. Inference is pure and deterministic.  Run where [ctx] holds the
    entries [m], [infer ctx e] completes as the rules prescribe for [m]
    and [e] alone; it leaves [ctx] and every other Map on the heap as
    they were; calling it a second time, in the state the first call
    left, gives the same type or the same error; and so does calling it
    in any other state, through any other reference, where the context
    holds the same entries. *)
Theorem infer_pure (e : Expr) (ctx : Context) (m : entries) (h : heap) :
  h !! ctx = Some m →
  (infer ctx e h).1 = thrown (rule_infer m e) ∧
  (infer ctx e (infer ctx e h).2).1 = (infer ctx e h).1 ∧
  (∀ c mc, h !! c = Some mc → (infer ctx e h).2 !! c = Some mc) ∧
  (∀ ctx' h', h' !! ctx' = Some m → (infer ctx' e h').1 = (infer ctx e h).1).
Proof.
  intros Hctx.
  destruct (infer_refines e ctx m h Hctx) as [k Hk]. rewrite Hk. cbn [fst snd].
  split_and!.
  - done.
  - apply infer_result. by apply live_app.
  - intros c mc Hc. by apply live_app.
  - intros ctx' h' Hctx'. by apply infer_result.
Qed.

Lemma infer_pure_witness :
  empty_heap !! empty = Some (∅ : entries) ∧
  (infer empty sibling empty_heap).1 = thrown (rule_infer ∅ sibling) ∧
  (infer empty sibling (infer empty sibling empty_heap).2).1 =
    (infer empty sibling empty_heap).1 ∧
  (∀ c mc, empty_heap !! c = Some mc →
           (infer empty sibling empty_heap).2 !! c = Some mc) ∧
  (∀ ctx' h', h' !! ctx' = Some (∅ : entries) →
              (infer ctx' sibling h').1 = (infer empty sibling empty_heap).1).
Proof.
  split; [reflexivity | ].
  apply (infer_pure sibling empty ∅ empty_heap). reflexivity.
Defined.



(** How [LetFun] runs, with the two contexts it builds made explicit. *)
Lemma LetFun_run (ctx : Context) (m : entries) (h : heap) (f x : string)
    (tx tRet : Ty) (body rest : Expr) :
  h !! ctx = Some m →
  let tf := Function tx tRet in
  let h2 := h ++ [<[f := tf]> m; <[x := tx]> (<[f := tf]> m)] in
  infer ctx (LetFun f x tx tRet body rest) h =
    match check (S (List.length h)) body tRet h2 with
    | (Returns _, h3) => infer (List.length h3) rest (h3 ++ [<[f := tf]> m])
    | (Throws msg, h3) => (Throws msg, h3)
    end.
Proof.
  intros Hctx tf h2. cbn [infer]. cbv zeta. fold tf.
  rewrite bind_run, extend_run, (deref_Some _ _ _ Hctx).
  rewrite bind_run, extend_run, (deref_Some _ _ _ (lookup_fresh h _)).
  rewrite length_app, Nat.add_1_r, <- app_assoc. cbn [app]. fold h2.
  rewrite bind_run. fold (check (S (List.length h)) body tRet).
  assert (h2 !! S (List.length h) = Some (<[x := tx]> (<[f := tf]> m))) as Hb.
  { unfold h2. rewrite lookup_app_r by lia.
    by replace (S (List.length h) - List.length h) with 1 by lia. }
  destruct (refines_check _ _ body tRet h2 (infer_refines body _ _) Hb)
    as [k Hk].
  fold (check (S (List.length h)) body tRet) in Hk. rewrite Hk.
  destruct (thrown _) as [[] | msg]; [ | done].
  assert ((h2 ++ k) !! ctx = Some m) as Hctx'
    by (unfold h2; by do 2 apply live_app).
  rewrite bind_run, extend_run, (deref_Some _ _ _ Hctx').
  rewrite bind_run.
  by destruct (infer (List.length (h2 ++ k)) rest _) as [[t | msg] h4].
Qed.

(** A function type is never its own argument type. *)
Lemma Function_not_argument (tx tRet : Ty) : tx ≠ Function tx tRet.
Proof.
  revert tRet. induction tx as [ | | a IHa r IHr]; intros tRet; try discriminate.
  intros [= Ha Hr]. by apply (IHa r).
Qed.

(** C2. [LetFun(f, x, tx, tRet, body, rest)] checks [body] against [tRet]
    in a context whose entries are those of [ctx] extended with [f] bound
    to [Function(tx, tRet)] and then with [x] bound to [tx]; it then
    infers [rest] in a context whose entries are those of [ctx] extended
    with [f] alone, where [x] reads as it does in [ctx], and returns what
    [rest] gives.  The recursive function of scenario 6 has type Number. *)
Theorem LetFun_scoping (ctx : Context) (m : entries) (h : heap) (f x : string)
    (tx tRet : Ty) (body rest : Expr) :
  h !! ctx = Some m →
  let tf := Function tx tRet in
  (∃ (functionBodyContext : Context) (h2 : heap),
     h2 !! functionBodyContext = Some (<[x := tx]> (<[f := tf]> m)) ∧
     h2 !! ctx = Some m ∧
     match check functionBodyContext body tRet h2 with
     | (Throws msg, h3) =>
         infer ctx (LetFun f x tx tRet body rest) h = (Throws msg, h3)
     | (Returns _, h3) =>
         ∃ (letBodyContext : Context) (h4 : heap),
           h4 !! letBodyContext = Some (<[f := tf]> m) ∧
           (x ≠ f → (lookup letBodyContext x h4).1 = (lookup ctx x h).1) ∧
           infer ctx (LetFun f x tx tRet body rest) h =
             infer letBodyContext rest h4
     end) ∧
  (infer ctx (LetFun f x tx tRet body rest) h).1 =
    thrown (rule_check (<[x := tx]> (<[f := tf]> m)) body tRet ;;
            rule_infer (<[f := tf]> m) rest) ∧
  (m = ∅ → (infer ctx sumTo10 h).1 = Returns Number).
Proof.
  intros Hctx tf. split_and!.
  - exists (S (List.length h)),
      (h ++ [<[f := tf]> m; <[x := tx]> (<[f := tf]> m)]).
    split_and!.
    + rewrite lookup_app_r by lia.
      by replace (S (List.length h) - List.length h) with 1 by lia.
    + by apply live_app.
    + rewrite (LetFun_run _ _ _ _ _ _ _ _ _ Hctx). fold tf.
      destruct (check _ body tRet _) as [[[] | msg] h3]; [ | done].
      exists (List.length h3), (h3 ++ [<[f := tf]> m]). split_and!.
      * apply lookup_fresh.
      * intros Hne.
        rewrite !lookup_run, (deref_Some _ _ _ Hctx),
          (deref_Some _ _ _ (lookup_fresh h3 _)).
        by rewrite lookup_insert_ne.
      * done.
  - by rewrite (infer_result _ _ _ _ Hctx).
  - intros ->. by rewrite (infer_result _ _ _ _ Hctx).
Qed.

Lemma LetFun_scoping_witness :
  empty_heap !! empty = Some (∅ : entries) ∧
  (infer empty sumTo10 empty_heap).1 =
    thrown (rule_check (<["x" := Number]> (<["f" := Function Number Number]> ∅))
              (If (Eq (Var "x") (Num (lit 10))) (Var "x")
                 (Plus (Var "x") (Call (Var "f") (Plus (Var "x") (Num (lit 1))))))
              Number ;;
            rule_infer (<["f" := Function Number Number]> ∅)
              (Call (Var "f") (Num (lit 8)))) ∧
  (infer empty sumTo10 empty_heap).1 = Returns Number.
Proof.
  split; [reflexivity | ].
  destruct (LetFun_scoping empty ∅ empty_heap "f" "x" Number Number
              (If (Eq (Var "x") (Num (lit 10))) (Var "x")
                 (Plus (Var "x") (Call (Var "f") (Plus (Var "x") (Num (lit 1))))))
              (Call (Var "f") (Num (lit 8))) eq_refl) as (_ & Hrule & Hscenario).
  split; [exact Hrule | exact (Hscenario eq_refl)].
Defined.

(** C10. When the parameter of a [LetFun] has the name of the function,
    the body is checked in a context where that name is bound to the
    parameter type [tx], since the parameter is entered after the
    function: there the name never has the function's type, and calling
    it fails unless [tx] is itself a function type.  The let-body still
    sees the name bound to [Function(tx, tRet)]. *)
Theorem LetFun_parameter_shadows_function (ctx : Context) (m : entries)
    (h : heap) (f : string) (tx tRet : Ty) (body rest : Expr) :
  h !! ctx = Some m →
  let tf := Function tx tRet in
  (∃ (functionBodyContext : Context) (h2 : heap),
     h2 !! functionBodyContext = Some (<[f := tx]> m) ∧
     (infer functionBodyContext (Var f) h2).1 = Returns tx ∧
     (infer functionBodyContext (Var f) h2).1 ≠ Returns tf ∧
     (shape tx ≠ FunctionShape → ∀ arg,
        (infer functionBodyContext (Call (Var f) arg) h2).1 =
          Throws (not_a_function_message tx)) ∧
     match check functionBodyContext body tRet h2 with
     | (Throws msg, h3) =>
         infer ctx (LetFun f f tx tRet body rest) h = (Throws msg, h3)
     | (Returns _, h3) =>
         ∃ (letBodyContext : Context) (h4 : heap),
           h4 !! letBodyContext = Some (<[f := tf]> m) ∧
           (infer letBodyContext (Var f) h4).1 = Returns tf ∧
           infer ctx (LetFun f f tx tRet body rest) h =
             infer letBodyContext rest h4
     end) ∧
  (m = ∅ →
     (infer ctx shadowed_self_call h).1 = Throws (not_a_function_message Number) ∧
     (infer ctx shadowed_parameter h).1 = Returns (Function Number Number)).
Proof.
  intros Hctx tf. split.
  - exists (S (List.length h)), (h ++ [<[f := tf]> m; <[f := tx]> (<[f := tf]> m)]).
    assert ((h ++ [<[f := tf]> m; <[f := tx]> (<[f := tf]> m)])
              !! S (List.length h) = Some (<[f := tx]> m)) as Hb.
    { rewrite lookup_app_r by lia.
      replace (S (List.length h) - List.length h) with 1 by lia.
      cbn. by rewrite insert_insert_eq. }
    assert (∀ e, (infer (S (List.length h)) e
                    (h ++ [<[f := tf]> m; <[f := tx]> (<[f := tf]> m)])).1
                 = thrown (rule_infer (<[f := tx]> m) e)) as Hrule
      by (intros e; by apply infer_result).
    split_and!.
    + done.
    + rewrite Hrule. cbn [rule_infer]. by rewrite lookup_insert_eq.
    + rewrite Hrule. cbn [rule_infer]. rewrite lookup_insert_eq.
      intros [= Heq]. by apply Function_not_argument in Heq.
    + intros Hshape arg. rewrite Hrule. cbn [rule_infer].
      rewrite lookup_insert_eq, outcome_bind_run. cbn.
      by destruct tx.
    + rewrite (LetFun_run _ _ _ _ _ _ _ _ _ Hctx). fold tf.
      destruct (check _ body tRet _) as [[[] | msg] h3]; [ | done].
      exists (List.length h3), (h3 ++ [<[f := tf]> m]). split_and!.
      * apply lookup_fresh.
      * rewrite (infer_result _ _ _ _ (lookup_fresh h3 _)). cbn [rule_infer].
        by rewrite lookup_insert_eq.
      * done.
  - intros ->. by rewrite !(infer_result _ _ _ _ Hctx).
Qed.

Lemma LetFun_parameter_shadows_function_witness :
  empty_heap !! empty = Some (∅ : entries) ∧
  (infer empty shadowed_self_call empty_heap).1 =
    Throws (not_a_function_message Number) ∧
  (infer empty shadowed_parameter empty_heap).1 =
    Returns (Function Number Number).
Proof.
  split; [reflexivity | ].
  destruct (LetFun_parameter_shadows_function empty ∅ empty_heap "f" Number
              Number (Var "f") (Var "f") eq_refl) as [_ Hscenario].
  exact (Hscenario eq_refl).
Defined.

(** * Further properties of the rules and of the source *)

#[local] Set Warnings "-clear-no-such-hyp".

(** ** The rules, one equation per compound node *)

Lemma rule_check_with_Ok (m : entries) (e : Expr) (expected : Ty) :
  rule_check_with rule_infer m e expected = Ok tt ↔
  rule_infer m e = Ok expected.
Proof.
  unfold rule_check_with. rewrite outcome_bind_run.
  destruct (rule_infer m e) as [actual | err]; [ | done].
  destruct (decide (actual = expected)) as [-> | Hne]; [done | ].
  split; [discriminate | congruence].
Qed.

Lemma rule_check_with_Fail (m : entries) (e : Expr) (expected : Ty)
    (err : TypeError) :
  rule_check_with rule_infer m e expected = Fail err ↔
  rule_infer m e = Fail err ∨
  ∃ actual, rule_infer m e = Ok actual ∧ actual ≠ expected ∧
            err = TypeMismatch expected actual.
Proof.
  unfold rule_check_with. rewrite outcome_bind_run.
  destruct (rule_infer m e) as [actual | err']; [ | naive_solver].
  destruct (decide (actual = expected)) as [-> | Hne]; naive_solver.
Qed.

Ltac rule_cases H :=
  cbn [rule_infer] in H;
  cbv [rule_check_with mbind outcome_bind mret outcome_ret] in H;
  repeat case_match; simplify_eq.

Lemma rule_infer_agree (e : Expr) :
  ∀ m1 m2 : entries,
    (∀ x, x ∈ free_vars e → m1 !! x = m2 !! x) →
    rule_infer m1 e = rule_infer m2 e.
Proof.
  assert (∀ (x y : string) (t : Ty) (m1 m2 : entries) (X : gset string),
            (∀ z, z ∈ X ∖ {[x]} → m1 !! z = m2 !! z) →
            y ∈ X → <[x := t]> m1 !! y = <[x := t]> m2 !! y) as Hins.
  { intros x y t m1 m2 X H Hy. destruct (decide (x = y)) as [-> | Hne].
    - by rewrite !lookup_insert_eq.
    - rewrite !lookup_insert_ne by done. apply H. set_solver. }
  induction e as [n | b | x e1 IH1 e2 IH2 | x | l IHl r IHr | l IHl r IHr
                 | l IHl r IHr | c IHc th IHth el IHel | x tx body IHb
                 | f IHf arg IHa | f x tx tRet body IHb rest IHr];
    intros m1 m2 H; cbn [rule_infer free_vars] in *; unfold rule_check_with.
  - done.
  - done.
  - rewrite (IH1 m1 m2) by (intros; apply H; set_solver).
    rewrite !outcome_bind_run. destruct (rule_infer m2 e1) as [t1 | ]; [ | done].
    apply IH2. intros y Hy. apply (Hins _ _ _ _ _ (free_vars e2)); [ | done].
    intros; apply H; set_solver.
  - rewrite (H x) by set_solver. done.
  - rewrite (IHl m1 m2), (IHr m1 m2) by (intros; apply H; set_solver). done.
  - rewrite (IHl m1 m2), (IHr m1 m2) by (intros; apply H; set_solver). done.
  - rewrite (IHl m1 m2), (IHr m1 m2) by (intros; apply H; set_solver). done.
  - rewrite (IHc m1 m2), (IHth m1 m2), (IHel m1 m2)
      by (intros; apply H; set_solver). done.
  - rewrite (IHb (<[x := tx]> m1) (<[x := tx]> m2)); [done | ].
    intros y Hy. by apply (Hins _ _ _ _ _ (free_vars body)).
  - rewrite (IHf m1 m2), (IHa m1 m2) by (intros; apply H; set_solver). done.
  - cbv zeta.
    rewrite (IHb (<[x := tx]> (<[f := Function tx tRet]> m1))
                 (<[x := tx]> (<[f := Function tx tRet]> m2))).
    + rewrite (IHr (<[f := Function tx tRet]> m1)
                   (<[f := Function tx tRet]> m2)); [done | ].
      intros y Hy. apply (Hins _ _ _ _ _ (free_vars rest)); [ | done].
      intros; apply H; set_solver.
    + intros y Hy. apply (Hins _ _ _ _ _ (free_vars body)); [ | done].
      intros z Hz. apply (Hins _ _ _ _ _ (free_vars body ∖ {[x]})); [ | done].
      intros; apply H; set_solver.
Qed.

Lemma rule_infer_unbound (e : Expr) :
  ∀ (m : entries) (x : string),
    rule_infer m e = Fail (UnboundVariable x) →
    x ∈ free_vars e ∧ m !! x = None.
Proof.
  induction e as [n | b | y e1 IH1 e2 IH2 | y | l IHl r IHr | l IHl r IHr
                 | l IHl r IHr | c IHc th IHth el IHel | y tx body IHb
                 | f IHf arg IHa | f y tx tRet body IHb rest IHr];
    intros m x H; rule_cases H; cbn [free_vars].
  all: repeat match goal with
       | IH : ∀ m x, rule_infer m ?e = _ → _, H : rule_infer _ ?e = Fail _ |- _ =>
           apply IH in H as [? ?]
       end.
  all: repeat match goal with
       | H : <[_ := _]> _ !! _ = None |- _ =>
           apply lookup_insert_None in H as [? ?]
       end.
  all: try (split; [set_solver | done]).
Qed.

Lemma rule_infer_bound (e : Expr) :
  ∀ (m : entries) (t : Ty),
    rule_infer m e = Ok t → ∀ x, x ∈ free_vars e → is_Some (m !! x).
Proof.
  induction e as [n | b | y e1 IH1 e2 IH2 | y | l IHl r IHr | l IHl r IHr
                 | l IHl r IHr | c IHc th IHth el IHel | y tx body IHb
                 | f IHf arg IHa | f y tx tRet body IHb rest IHr];
    intros m t H x Hx; rule_cases H; cbn [free_vars] in Hx.
  all: repeat match goal with
       | IH : ∀ m t, rule_infer m ?e = _ → _, H : rule_infer _ ?e = Ok _ |- _ =>
           specialize (IH _ _ H x); clear H
       end.
  all: rewrite ?lookup_insert_is_Some in *.
  all: set_unfold; naive_solver.
Qed.

Lemma rule_infer_mismatch (e : Expr) :
  ∀ (m : entries) (expected actual : Ty),
    rule_infer m e = Fail (TypeMismatch expected actual) → expected ≠ actual.
Proof.
  induction e as [n | b | y e1 IH1 e2 IH2 | y | l IHl r IHr | l IHl r IHr
                 | l IHl r IHr | c IHc th IHth el IHel | y tx body IHb
                 | f IHf arg IHa | f y tx tRet body IHb rest IHr];
    intros m expected actual H; rule_cases H; eauto.
Qed.

Lemma rule_infer_not_function (e : Expr) :
  ∀ (m : entries) (actual : Ty),
    rule_infer m e = Fail (NotAFunction actual) → shape actual ≠ FunctionShape.
Proof.
  induction e as [n | b | y e1 IH1 e2 IH2 | y | l IHl r IHr | l IHl r IHr
                 | l IHl r IHr | c IHc th IHth el IHel | y tx body IHb
                 | f IHf arg IHa | f y tx tRet body IHb rest IHr];
    intros m actual H; rule_cases H; eauto; done.
Qed.

Lemma thrown_Returns {A} (o : outcome A) (a : A) :
  thrown o = Returns a ↔ o = Ok a.
Proof. destruct o; cbn; split; congruence. Qed.

Lemma thrown_Throws {A} (o : outcome A) (msg : string) :
  thrown o = Throws msg ↔ ∃ err, o = Fail err ∧ message err = msg.
Proof.
  destruct o as [a | err]; cbn; split; try naive_solver.
Qed.

Ltac rule_goal :=
  cbn [rule_infer];
  cbv [rule_check_with rule_check mbind outcome_bind mret outcome_ret];
  repeat case_match; simplify_eq; cbn [thrown message].

(** ** Contexts: reading after extending *)

(** X1. After [extend(ctx, x, t)] a [lookup] of [x] in the new context
    returns [t] and a [lookup] of any other name completes as it does in
    [ctx], error included; neither [lookup] touches the heap.  Extending
    the new context again at [x] changes what the newest context reads,
    not what the one before it reads. *)
Theorem lookup_after_extend (h : heap) (ctx : Context) (m : entries)
    (x : string) (t : Ty) (extended : Context) (h' : heap) :
  h !! ctx = Some m →
  extend ctx x t h = (Returns extended, h') →
  lookup extended x h' = (Returns t, h') ∧
  (∀ y, y ≠ x →
     (lookup extended y h').1 = (lookup ctx y h).1 ∧
     (lookup extended y h').2 = h') ∧
  (∀ t2 extended2 h'',
     extend extended x t2 h' = (Returns extended2, h'') →
     lookup extended2 x h'' = (Returns t2, h'') ∧
     lookup extended x h'' = (Returns t, h'') ∧
     (lookup ctx x h'').1 = (lookup ctx x h).1).
Proof.
  intros Hctx. rewrite extend_run, (deref_Some _ _ _ Hctx). intros [= <- <-].
  assert ((h ++ [<[x := t]> m]) !! List.length h = Some (<[x := t]> m)) as He
    by apply lookup_fresh.
  split_and!.
  - by rewrite lookup_run, (deref_Some _ _ _ He), lookup_insert_eq.
  - intros y Hy.
    rewrite !lookup_run, (deref_Some _ _ _ He), (deref_Some _ _ _ Hctx).
    by rewrite lookup_insert_ne.
  - intros t2 extended2 h''.
    rewrite extend_run, (deref_Some _ _ _ He). intros [= <- <-].
    rewrite !lookup_run.
    rewrite (deref_Some _ _ _ (lookup_fresh _ _)).
    rewrite (deref_Some _ _ _ (live_app _ _ _ _ He)).
    rewrite (deref_Some _ _ _ (live_app _ _ _ _ (live_app _ _ _ _ Hctx))).
    rewrite (deref_Some _ _ _ Hctx).
    by rewrite !lookup_insert_eq.
Qed.

Lemma lookup_after_extend_witness :
  empty_heap !! empty = Some (∅ : entries) ∧
  extend empty "x" Number empty_heap = (Returns 1, [∅; <["x" := Number]> ∅]) ∧
  lookup 1 "x" [∅; <["x" := Number]> ∅] =
    (Returns Number, [∅; <["x" := Number]> ∅]).
Proof.
  split; [reflexivity | split; [reflexivity | ]].
  exact (proj1 (lookup_after_extend empty_heap empty ∅ "x" Number 1
                  [∅; <["x" := Number]> ∅] eq_refl eq_refl)).
Defined.

(** ** Types and messages *)

(** X2. [sameType] is reflexive, symmetric and transitive; in particular
    its verdict does not depend on which of the two types [check] passes
    first. *)
Theorem sameType_equivalence (t1 t2 t3 : Ty) :
  sameType t1 t1 = true ∧
  sameType t1 t2 = sameType t2 t1 ∧
  (sameType t1 t2 = true → sameType t2 t3 = true → sameType t1 t3 = true) ∧
  (typeof_string t1 = true → typeof_string t2 = false →
     sameType t1 t2 = false ∧ sameType t2 t1 = false).
Proof.
  split_and!.
  - apply sameType_refl.
  - destruct (sameType t1 t2) eqn:H12, (sameType t2 t1) eqn:H21; try done.
    + apply sameType_eq in H12 as ->. by rewrite sameType_refl in H21.
    + apply sameType_eq in H21 as ->. by rewrite sameType_refl in H12.
  - intros ->%sameType_eq ->%sameType_eq. apply sameType_refl.
  - by destruct t1, t2.
Qed.

Lemma sameType_equivalence_witness :
  sameType (Function Number Boolean) (Function Number Boolean) = true ∧
  sameType Number (Function Number Number) = false.
Proof.
  pose proof (sameType_equivalence Number (Function Number Number) Number)
    as (_ & _ & _ & Hmixed).
  split; [reflexivity | ].
  exact (proj1 (Hmixed eq_refl eq_refl)).
Defined.

(** X3. The messages of the three throw sites never coincide, and each
    one determines what it was built from: the variable name, the
    expected and the inferred type, or the type of the callee.
    [JSON.stringify] itself is injective on types. *)
Theorem messages_unambiguous :
  (∀ t1 t2, JSON_stringify t1 = JSON_stringify t2 → t1 = t2) ∧
  (∀ x y, unbound_variable_message x = unbound_variable_message y → x = y) ∧
  (∀ e1 a1 e2 a2,
     type_mismatch_message e1 a1 = type_mismatch_message e2 a2 →
     e1 = e2 ∧ a1 = a2) ∧
  (∀ t1 t2, not_a_function_message t1 = not_a_function_message t2 → t1 = t2) ∧
  (∀ x e a, unbound_variable_message x ≠ type_mismatch_message e a) ∧
  (∀ x t, unbound_variable_message x ≠ not_a_function_message t) ∧
  (∀ e a t, type_mismatch_message e a ≠ not_a_function_message t).
Proof.
  split_and!.
  - apply JSON_stringify_inj.
  - intros x y H. by injection (message_inj (UnboundVariable x) (UnboundVariable y) H).
  - apply type_mismatch_message_inj.
  - apply not_a_function_message_inj.
  - intros x e a H. by pose proof (message_inj (UnboundVariable x) (TypeMismatch e a) H).
  - intros x t H. by pose proof (message_inj (UnboundVariable x) (NotAFunction t) H).
  - intros e a t H. by pose proof (message_inj (TypeMismatch e a) (NotAFunction t) H).
Qed.

(** ** What a failure can be *)

(** X4. Whatever the expression, [infer] throws nothing but the three
    messages of the source, and each tells a fact: an unbound-variable
    message names a variable that the expression reads and the context
    does not bind; a type-mismatch message shows two different types; a
    not-a-function message shows a type that is not a function type. *)
Theorem infer_failures (e : Expr) (ctx : Context) (m : entries) (h : heap)
    (msg : string) :
  h !! ctx = Some m →
  (infer ctx e h).1 = Throws msg →
  (∃ x, msg = unbound_variable_message x ∧ x ∈ free_vars e ∧ m !! x = None) ∨
  (∃ expected actual,
     msg = type_mismatch_message expected actual ∧ expected ≠ actual) ∨
  (∃ actual,
     msg = not_a_function_message actual ∧ shape actual ≠ FunctionShape).
Proof.
  intros Hctx. rewrite (infer_result _ _ _ _ Hctx), thrown_Throws.
  intros ([x | expected actual | actual] & Hrule & <-); cbn [message].
  - left. exists x. by destruct (rule_infer_unbound _ _ _ Hrule).
  - right; left. exists expected, actual.
    by pose proof (rule_infer_mismatch _ _ _ _ Hrule).
  - right; right. exists actual.
    by pose proof (rule_infer_not_function _ _ _ Hrule).
Qed.

Lemma infer_failures_witness :
  empty_heap !! empty = Some (∅ : entries) ∧
  (infer empty sibling empty_heap).1 = Throws (unbound_variable_message "x") ∧
  ((∃ x, unbound_variable_message "x" = unbound_variable_message x ∧
         x ∈ free_vars sibling ∧ (∅ : entries) !! x = None) ∨
   (∃ expected actual,
      unbound_variable_message "x" = type_mismatch_message expected actual ∧
      expected ≠ actual) ∨
   (∃ actual,
      unbound_variable_message "x" = not_a_function_message actual ∧
      shape actual ≠ FunctionShape)).
Proof.
  split; [reflexivity | split; [reflexivity | ]].
  apply (infer_failures sibling empty ∅ empty_heap); reflexivity.
Defined.

(** ** What an expression reads from its context *)

(** X5. [infer] reads from the context nothing but the free variables of
    the expression: run in two contexts that bind those variables alike,
    whatever else they hold, it returns the same type or throws the same
    message. *)
Theorem infer_reads_free_variables (e : Expr) (ctx1 ctx2 : Context)
    (m1 m2 : entries) (h1 h2 : heap) :
  h1 !! ctx1 = Some m1 →
  h2 !! ctx2 = Some m2 →
  (∀ x, x ∈ free_vars e → m1 !! x = m2 !! x) →
  (infer ctx1 e h1).1 = (infer ctx2 e h2).1.
Proof.
  intros H1 H2 Hagree.
  rewrite (infer_result _ _ _ _ H1), (infer_result _ _ _ _ H2).
  by rewrite (rule_infer_agree e m1 m2 Hagree).
Qed.

Lemma infer_reads_free_variables_witness :
  [(∅ : entries)] !! 0 = Some (∅ : entries) ∧
  [<["y" := Boolean]> (∅ : entries)] !! 0 = Some (<["y" := Boolean]> (∅ : entries)) ∧
  (infer 0 shadowing [∅]).1 = (infer 0 shadowing [<["y" := Boolean]> ∅]).1.
Proof.
  split; [reflexivity | split; [reflexivity | ]].
  apply (infer_reads_free_variables shadowing 0 0 ∅ (<["y" := Boolean]> ∅));
    [reflexivity | reflexivity | ].
  intros x Hx. by apply not_elem_of_empty in Hx.
Defined.

(** X6. When [infer] returns a type, the context binds every free
    variable of the expression: no part of a well-typed expression is
    skipped, both branches of an [If] included. *)
Theorem infer_success_binds_free_variables (e : Expr) (ctx : Context)
    (m : entries) (h : heap) (t : Ty) :
  h !! ctx = Some m →
  (infer ctx e h).1 = Returns t →
  ∀ x, x ∈ free_vars e → is_Some (m !! x).
Proof.
  intros Hctx. rewrite (infer_result _ _ _ _ Hctx), thrown_Returns.
  apply rule_infer_bound.
Qed.

Lemma infer_success_binds_free_variables_witness :
  [<["x" := Number]> (∅ : entries)] !! 0 = Some (<["x" := Number]> (∅ : entries)) ∧
  (infer 0 (Plus (Var "x") (Var "x")) [<["x" := Number]> ∅]).1 = Returns Number ∧
  is_Some ((<["x" := Number]> (∅ : entries)) !! "x").
Proof.
  split; [reflexivity | split; [reflexivity | ]].
  apply (infer_success_binds_free_variables (Plus (Var "x") (Var "x")) 0
           (<["x" := Number]> ∅) [<["x" := Number]> ∅] Number);
    [reflexivity | reflexivity | ].
  cbn [free_vars]. set_solver.
Defined.

(** X7. When the context binds every free variable of the expression,
    [infer] never throws an unbound-variable message: what is left to go
    wrong is a type mismatch or a call of a non-function. *)
Theorem infer_closed_never_unbound (e : Expr) (ctx : Context) (m : entries)
    (h : heap) :
  h !! ctx = Some m →
  (∀ x, x ∈ free_vars e → is_Some (m !! x)) →
  ∀ x, (infer ctx e h).1 ≠ Throws (unbound_variable_message x).
Proof.
  intros Hctx Hbound x. rewrite (infer_result _ _ _ _ Hctx), thrown_Throws.
  intros (err & Hrule & Hmsg).
  apply (message_inj err (UnboundVariable x)) in Hmsg as ->.
  destruct (rule_infer_unbound _ _ _ Hrule) as [Hfree Hnone].
  destruct (Hbound x Hfree) as [t Ht]. congruence.
Qed.

Lemma infer_closed_never_unbound_witness :
  empty_heap !! empty = Some (∅ : entries) ∧
  (∀ x, x ∈ free_vars sumTo10 → is_Some ((∅ : entries) !! x)) ∧
  (infer empty sumTo10 empty_heap).1 ≠ Throws (unbound_variable_message "f").
Proof.
  assert (∀ x, x ∈ free_vars sumTo10 → is_Some ((∅ : entries) !! x)) as Hclosed.
  { intros x. cbn [free_vars sumTo10]. set_solver. }
  split; [reflexivity | split; [exact Hclosed | ]].
  apply (infer_closed_never_unbound sumTo10 empty ∅ empty_heap eq_refl Hclosed).
Defined.

(** ** The rules of the nodes, read backwards *)

(** X8. [If(c, th, el)] has type [t] exactly when [c] has type Boolean
    and both branches have type [t].  When the branches disagree the
    message shows the type of the then-branch as expected and that of
    the else-branch as found; a condition that is not Boolean is
    reported before the branches are looked at. *)
Theorem If_typing (ctx : Context) (m : entries) (h : heap)
    (c th el : Expr) :
  h !! ctx = Some m →
  (∀ t, (infer ctx (If c th el) h).1 = Returns t ↔
        (infer ctx c h).1 = Returns Boolean ∧
        (infer ctx th h).1 = Returns t ∧
        (infer ctx el h).1 = Returns t) ∧
  (∀ t t',
     (infer ctx c h).1 = Returns Boolean →
     (infer ctx th h).1 = Returns t →
     (infer ctx el h).1 = Returns t' →
     t' ≠ t →
     (infer ctx (If c th el) h).1 = Throws (type_mismatch_message t t')) ∧
  (∀ tc,
     (infer ctx c h).1 = Returns tc →
     tc ≠ Boolean →
     (infer ctx (If c th el) h).1 = Throws (type_mismatch_message Boolean tc)).
Proof.
  intros Hctx. rewrite !(infer_result _ _ _ _ Hctx). split_and!.
  - intros t. rewrite !thrown_Returns. rule_goal; naive_solver.
  - intros t t'. rewrite !thrown_Returns. intros Hc Hth Hel Hne.
    rule_goal; congruence.
  - intros tc. rewrite !thrown_Returns. intros Hc Hne.
    rule_goal; congruence.
Qed.

Lemma If_typing_witness :
  empty_heap !! empty = Some (∅ : entries) ∧
  (infer empty (Bool true) empty_heap).1 = Returns Boolean ∧
  (infer empty (Num (lit 1)) empty_heap).1 = Returns Number ∧
  (infer empty (Bool false) empty_heap).1 = Returns Boolean ∧
  Boolean ≠ Number ∧
  (infer empty (If (Bool true) (Num (lit 1)) (Bool false)) empty_heap).1 =
    Throws (type_mismatch_message Number Boolean).
Proof.
  do 4 (split; [reflexivity | ]). split; [discriminate | ].
  refine (proj1 (proj2 (If_typing empty ∅ empty_heap (Bool true)
                          (Num (lit 1)) (Bool false) eq_refl))
            Number Boolean eq_refl eq_refl eq_refl _).
  discriminate.
Defined.

(** X9. [Plus(l, r)] returns a type exactly when both operands have type
    Number, and that type is Number; [Or(l, r)] returns a type exactly
    when both operands have type Boolean, and that type is Boolean. *)
Theorem Plus_Or_typing (ctx : Context) (m : entries) (h : heap)
    (l r : Expr) (t : Ty) :
  h !! ctx = Some m →
  ((infer ctx (Plus l r) h).1 = Returns t ↔
     t = Number ∧
     (infer ctx l h).1 = Returns Number ∧ (infer ctx r h).1 = Returns Number) ∧
  ((infer ctx (Or l r) h).1 = Returns t ↔
     t = Boolean ∧
     (infer ctx l h).1 = Returns Boolean ∧ (infer ctx r h).1 = Returns Boolean).
Proof.
  intros Hctx. rewrite !(infer_result _ _ _ _ Hctx), !thrown_Returns.
  split; rule_goal; naive_solver.
Qed.

Lemma Plus_Or_typing_witness :
  empty_heap !! empty = Some (∅ : entries) ∧
  ((infer empty (Plus (Num (lit 1)) (Num (lit 8))) empty_heap).1 = Returns Number ↔
     Number = Number ∧
     (infer empty (Num (lit 1)) empty_heap).1 = Returns Number ∧
     (infer empty (Num (lit 8)) empty_heap).1 = Returns Number).
Proof.
  split; [reflexivity | ].
  exact (proj1 (Plus_Or_typing empty ∅ empty_heap (Num (lit 1)) (Num (lit 8))
                  Number eq_refl)).
Defined.

(** X10. [Fun(x, tx, body)] returns a type exactly when its body has a
    type [tBody] in the context extended with [x] bound to [tx], and the
    type returned is [Function(tx, tBody)]: the annotation is taken as
    it is written.  A failure of the body is the failure of the [Fun]. *)
Theorem Fun_typing (ctx : Context) (m : entries) (h : heap) (x : string)
    (tx : Ty) (body : Expr) :
  h !! ctx = Some m →
  ∃ (extended : Context) (h' : heap),
    extend ctx x tx h = (Returns extended, h') ∧
    h' !! extended = Some (<[x := tx]> m) ∧
    (∀ t, (infer ctx (Fun x tx body) h).1 = Returns t ↔
          ∃ tBody, t = Function tx tBody ∧
                   (infer extended body h').1 = Returns tBody) ∧
    (∀ msg, (infer ctx (Fun x tx body) h).1 = Throws msg ↔
            (infer extended body h').1 = Throws msg).
Proof.
  intros Hctx. exists (List.length h), (h ++ [<[x := tx]> m]).
  rewrite extend_run, (deref_Some _ _ _ Hctx).
  rewrite (infer_result _ _ _ _ Hctx),
    (infer_result _ _ _ _ (lookup_fresh h (<[x := tx]> m))).
  split_and!; [done | apply lookup_fresh | | ].
  - intros t. rewrite thrown_Returns. setoid_rewrite thrown_Returns.
    rule_goal; naive_solver.
  - intros msg. rule_goal; naive_solver.
Qed.

Lemma Fun_typing_witness :
  empty_heap !! empty = Some (∅ : entries) ∧
  (infer empty (Fun "x" Boolean (Var "x")) empty_heap).1 =
    Returns (Function Boolean Boolean).
Proof.
  split; [reflexivity | ].
  destruct (Fun_typing empty ∅ empty_heap "x" Boolean (Var "x") eq_refl)
    as (extended & h' & Hext & _ & Hret & _).
  apply Hret. exists Boolean. split; [reflexivity | ].
  injection Hext as <- <-. reflexivity.
Defined.

(** X11. A [Let] types like the call of an annotated function: when
    [e1] has type [t1], [Let(x, e1, e2)] and
    [Call(Fun(x, t1, e2), e1)] return the same type or throw the same
    message. *)
Theorem Let_as_Call_of_Fun (ctx : Context) (m : entries) (h : heap)
    (x : string) (e1 e2 : Expr) (t1 : Ty) :
  h !! ctx = Some m →
  (infer ctx e1 h).1 = Returns t1 →
  (infer ctx (Let x e1 e2) h).1 = (infer ctx (Call (Fun x t1 e2) e1) h).1.
Proof.
  intros Hctx. rewrite !(infer_result _ _ _ _ Hctx), thrown_Returns.
  intros He1. cbn [rule_infer].
  cbv [rule_check_with mbind outcome_bind mret outcome_ret]. rewrite He1.
  destruct (rule_infer (<[x := t1]> m) e2) as [t2 | err]; [ | done].
  by rewrite decide_True.
Qed.

Lemma Let_as_Call_of_Fun_witness :
  empty_heap !! empty = Some (∅ : entries) ∧
  (infer empty (Num (lit 5)) empty_heap).1 = Returns Number ∧
  (infer empty (Let "x" (Num (lit 5)) (Plus (Var "x") (Bool true))) empty_heap).1 =
  (infer empty (Call (Fun "x" Number (Plus (Var "x") (Bool true))) (Num (lit 5)))
     empty_heap).1.
Proof.
  split; [reflexivity | split; [reflexivity | ]].
  apply (Let_as_Call_of_Fun empty ∅ empty_heap "x" (Num (lit 5))
           (Plus (Var "x") (Bool true)) Number); reflexivity.
Defined.

(** X12. Whether [Plus], [Or] or [Eq] is well typed does not depend on
    the order of its operands; the order only decides which error is
    reported when it is not. *)
Theorem operands_commute (ctx : Context) (m : entries) (h : heap)
    (l r : Expr) (t : Ty) :
  h !! ctx = Some m →
  ((infer ctx (Plus l r) h).1 = Returns t ↔ (infer ctx (Plus r l) h).1 = Returns t) ∧
  ((infer ctx (Or l r) h).1 = Returns t ↔ (infer ctx (Or r l) h).1 = Returns t) ∧
  ((infer ctx (Eq l r) h).1 = Returns t ↔ (infer ctx (Eq r l) h).1 = Returns t) ∧
  ((infer ctx (Eq l r) h).1 = Returns t ↔
     t = Boolean ∧ ∃ t', (infer ctx l h).1 = Returns t' ∧
                         (infer ctx r h).1 = Returns t').
Proof.
  intros Hctx. rewrite !(infer_result _ _ _ _ Hctx), !thrown_Returns.
  setoid_rewrite thrown_Returns.
  split_and!; rule_goal; naive_solver.
Qed.

Lemma operands_commute_witness :
  empty_heap !! empty = Some (∅ : entries) ∧
  ((infer empty (Eq (Num (lit 1)) (Bool true)) empty_heap).1 = Returns Boolean ↔
   (infer empty (Eq (Bool true) (Num (lit 1))) empty_heap).1 = Returns Boolean).
Proof.
  split; [reflexivity | ].
  exact (proj1 (proj2 (proj2 (operands_commute empty ∅ empty_heap (Num (lit 1))
                                 (Bool true) Boolean eq_refl)))).
Defined.

(** X13. With a parameter named differently from the function, the body
    of a [LetFun] may call the function on its own parameter, whatever
    the declared types: the declaration is trusted inside the body, and
    the [LetFun] types as its let-body does. *)
Theorem LetFun_self_call (ctx : Context) (m : entries) (h : heap)
    (f x : string) (tx tRet : Ty) (rest : Expr) (ctx' : Context) (h' : heap) :
  h !! ctx = Some m →
  f ≠ x →
  h' !! ctx' = Some (<[f := Function tx tRet]> m) →
  (infer ctx (LetFun f x tx tRet (Call (Var f) (Var x)) rest) h).1 =
  (infer ctx' rest h').1.
Proof.
  intros Hctx Hne Hctx'.
  rewrite (infer_result _ _ _ _ Hctx), (infer_result _ _ _ _ Hctx').
  do 3 (cbn [rule_infer];
        cbv [rule_check_with mbind outcome_bind mret outcome_ret]).
  rewrite lookup_insert_ne, lookup_insert_eq by congruence. cbv beta iota.
  rewrite lookup_insert_eq. cbv beta iota. by rewrite !decide_True.
Qed.

Lemma LetFun_self_call_witness :
  empty_heap !! empty = Some (∅ : entries) ∧
  "f" ≠ "x" ∧
  [<["f" := Function Number Boolean]> (∅ : entries)] !! 0 =
    Some (<["f" := Function Number Boolean]> (∅ : entries)) ∧
  (infer empty (LetFun "f" "x" Number Boolean (Call (Var "f") (Var "x"))
                  (Var "f")) empty_heap).1 =
  (infer 0 (Var "f") [<["f" := Function Number Boolean]> ∅]).1.
Proof.
  split; [reflexivity | split; [discriminate | split; [reflexivity | ]]].
  apply (LetFun_self_call empty ∅ empty_heap "f" "x" Number Boolean (Var "f") 0
           [<["f" := Function Number Boolean]> ∅]);
    [reflexivity | discriminate | reflexivity].
Defined.

(** ** Allocation *)

Lemma allocates_ret {A} (a : A) : allocates (mret a) 0.
Proof. intros h. cbn. split; [lia | intros; lia]. Qed.

Lemma allocates_throw {A} (msg : string) (n : nat) :
  allocates (throw (A := A) msg) n.
Proof. intros h. cbn. split; [lia | discriminate]. Qed.

Lemma allocates_bind {A B} (c : M A) (k : A → M B) (n1 n2 : nat) :
  allocates c n1 → (∀ a, allocates (k a) n2) → allocates (c ≫= k) (n1 + n2).
Proof.
  intros Hc Hk h. rewrite bind_run. specialize (Hc h).
  destruct (c h) as [[a | msg] h1]; cbn [fst snd] in *.
  - destruct Hc as [Hle Heq]. specialize (Heq a eq_refl).
    destruct (Hk a h1) as [Hle2 Heq2]. split; [lia | ].
    intros b Hb. rewrite (Heq2 b Hb). lia.
  - split; [lia | discriminate].
Qed.

Lemma allocates_weaken {A} (c : M A) (n n' : nat) :
  allocates c n → n = n' → allocates c n'.
Proof. by intros H <-. Qed.

Lemma allocates_extend (ctx : Context) (x : string) (t : Ty) :
  allocates (extend ctx x t) 1.
Proof.
  intros h. rewrite extend_run. cbn [fst snd]. rewrite length_app. cbn.
  split; [lia | intros; lia].
Qed.

Lemma allocates_lookup (ctx : Context) (x : string) : allocates (lookup ctx x) 0.
Proof.
  intros h. rewrite lookup_run. cbn [fst snd]. split; [lia | intros; lia].
Qed.

Lemma allocates_check_with (ctx : Context) (e : Expr) (expected : Ty) (n : nat) :
  (∀ ctx, allocates (infer ctx e) n) →
  allocates (check_with infer ctx e expected) n.
Proof.
  intros IH. unfold check_with.
  eapply allocates_weaken; [ | apply Nat.add_0_r].
  apply allocates_bind; [apply IH | ].
  intros actual. destruct (negb _); [apply allocates_throw | apply allocates_ret].
Qed.

Lemma allocates_infer (e : Expr) :
  ∀ ctx, allocates (infer ctx e) (extend_calls e).
Proof.
  induction e as [n | b | x e1 IH1 e2 IH2 | x | l IHl r IHr | l IHl r IHr
                 | l IHl r IHr | c IHc th IHth el IHel | x tx body IHb
                 | f IHf arg IHa | f x tx tRet body IHb rest IHr];
    intros ctx; cbn [infer extend_calls]; cbv zeta.
  1, 2: apply allocates_ret.
  2: apply allocates_lookup.
  all: eapply allocates_weaken;
    [ repeat first
        [ apply allocates_ret
        | apply allocates_throw
        | apply allocates_extend
        | apply allocates_check_with; assumption
        | match goal with IH : ∀ ctx, allocates (infer ctx ?e) _
                          |- allocates (infer _ ?e) _ => apply IH end
        | match goal with |- allocates (match ?t with _ => _ end) _ =>
            destruct t end
        | eapply allocates_bind; [ | intros ] ]
    | try lia ].
Qed.

(** X14. A run of [infer] only appends Maps to the heap, at most one for
    each call to [extend] in the expression (one per [Let], one per
    [Fun], three per [LetFun]) and exactly that many when it returns a
    type.  An expression without binders leaves the heap as it is. *)
Theorem infer_allocation_count (e : Expr) (ctx : Context) (m : entries)
    (h : heap) :
  h !! ctx = Some m →
  ∃ k : heap,
    (infer ctx e h).2 = h ++ k ∧
    List.length k ≤ extend_calls e ∧
    (∀ t, (infer ctx e h).1 = Returns t → List.length k = extend_calls e) ∧
    (extend_calls e = 0 → (infer ctx e h).2 = h).
Proof.
  intros Hctx. destruct (infer_heap e ctx m h Hctx) as [k Hk]. exists k.
  destruct (allocates_infer e ctx h) as [Hle Heq].
  rewrite Hk, length_app in Hle. split_and!.
  - done.
  - lia.
  - intros t Ht. specialize (Heq t Ht). rewrite Hk, length_app in Heq. lia.
  - intros Hzero. rewrite Hk.
    assert (List.length k = 0) as ->%nil_length_inv by lia.
    by rewrite app_nil_r.
Qed.

Lemma infer_allocation_count_witness :
  empty_heap !! empty = Some (∅ : entries) ∧
  extend_calls sumTo10 = 3 ∧
  (infer empty sumTo10 empty_heap).1 = Returns Number ∧
  List.length (infer empty sumTo10 empty_heap).2 = 4.
Proof.
  split; [reflexivity | split; [reflexivity | split; [reflexivity | ]]].
  destruct (infer_allocation_count sumTo10 empty ∅ empty_heap eq_refl)
    as (k & Hk & _ & Hexact & _).
  rewrite Hk, length_app, (Hexact Number eq_refl). reflexivity.
Defined.

(** X15. [Let(x, e1, e2)] fails as [e1] does when [e1] fails; when [e1]
    has type [t1] it completes as [e2] does in a context that holds the
    entries of [ctx] with [x] bound to [t1], whatever [ctx] bound [x] to
    before. *)
Theorem Let_typing (ctx : Context) (m : entries) (h : heap) (x : string)
    (e1 e2 : Expr) :
  h !! ctx = Some m →
  (∀ msg, (infer ctx e1 h).1 = Throws msg →
          (infer ctx (Let x e1 e2) h).1 = Throws msg) ∧
  (∀ t1 ctx' h',
     (infer ctx e1 h).1 = Returns t1 →
     h' !! ctx' = Some (<[x := t1]> m) →
     (infer ctx (Let x e1 e2) h).1 = (infer ctx' e2 h').1) ∧
  (∀ t0 ctx' h',
     h' !! ctx' = Some (<[x := t0]> m) →
     x ∉ free_vars e1 →
     (infer ctx' (Let x e1 e2) h').1 = (infer ctx (Let x e1 e2) h).1).
Proof.
  intros Hctx. rewrite !(infer_result _ _ _ _ Hctx). split_and!.
  - intros msg (err & Hrule & <-)%thrown_Throws.
    cbn [rule_infer]. rewrite outcome_bind_run, Hrule. done.
  - intros t1 ctx' h' Hrule%thrown_Returns Hctx'.
    rewrite (infer_result _ _ _ _ Hctx').
    cbn [rule_infer]. rewrite outcome_bind_run, Hrule. done.
  - intros t0 ctx' h' Hctx' Hfree.
    rewrite (infer_result _ _ _ _ Hctx'). f_equal.
    apply rule_infer_agree. intros y Hy. cbn [free_vars] in Hy.
    rewrite lookup_insert_ne; [done | ]. set_solver.
Qed.

Lemma Let_typing_witness :
  empty_heap !! empty = Some (∅ : entries) ∧
  (infer empty (Var "y") empty_heap).1 = Throws (unbound_variable_message "y") ∧
  (infer empty (Let "x" (Var "y") (Var "x")) empty_heap).1 =
    Throws (unbound_variable_message "y").
Proof.
  split; [reflexivity | split; [reflexivity | ]].
  apply (proj1 (Let_typing empty ∅ empty_heap "x" (Var "y") (Var "x") eq_refl)).
  reflexivity.
Defined.
